(** * healthz: probe groups, health snapshots and group queries

    A shallow embedding of the Go package [healthz] (inspector.go and the
    health-result file) together with the properties of its specification.

    Conventions of the embedding:
    - [ProbeGroup] is Go's [uint8], carried by [Z]; the range is the
      predicate [is_uint8].  Bit tests are [Z.land] against the group
      constants, as in the source.
    - Go's [error] interface value is [option goError]: [None] is [nil].
    - [*Inspector] methods that mutate the receiver return the new
      inspector next to their result.
    - One poll cycle ([Inspector.check]) receives the check results over a
      channel in completion order; the order is an explicit argument. *)

From Stdlib Require Import ZArith List String Bool Lia Permutation.
Import ListNotations.
Local Open Scope Z_scope.

Set Warnings "-register-all".

(** ** Errors *)

(** Non-nil error values: the ones built by [errors.New] and the ones built
    by [errors.Join] (which wraps the non-nil errors it was given). *)
Inductive goError : Type :=
| errorString (s : string)
| joinError (errs : list goError).

Definition error : Type := option goError.

Definition errors_New (s : string) : error := Some (errorString s).

(** [nonNil errs] is the second loop of Go's [errors.Join]: the non-nil
    values of [errs], in order. *)
Fixpoint nonNil (errs : list error) : list goError :=
  match errs with
  | [] => []
  | None :: rest => nonNil rest
  | Some e :: rest => e :: nonNil rest
  end.

(** Go's standard [errors.Join]: nil when every argument is nil, otherwise
    a join error wrapping the non-nil arguments. *)
Definition errors_Join (errs : list error) : error :=
  match nonNil errs with
  | [] => None
  | e :: es => Some (joinError (e :: es))
  end.

Definition errMissTargets : error := errors_New "miss targets"%string.
Definition errMissGroup : error :=
  errors_New "miss group, allow only combinations from 1, 2, 4"%string.
Definition errEmptyGroup : error := errors_New "empty probe group"%string.
Definition errWrongCheckPeriod : error := errors_New "incorrect check period"%string.
Definition errNoYetChecked : error := errors_New "not yet checked"%string.

(** ** ProbeGroup *)

Definition ProbeGroup : Type := Z.

Definition is_uint8 (pg : ProbeGroup) : Prop := 0 <= pg < 256.

Definition GroupCommon : ProbeGroup := Z.shiftl 1 0.
Definition GroupStartup : ProbeGroup := Z.shiftl 1 1.
Definition GroupLive : ProbeGroup := Z.shiftl 1 2.
Definition GroupReady : ProbeGroup := Z.shiftl 1 3.
Definition AllGroups : ProbeGroup :=
  Z.lor (Z.lor (Z.lor GroupCommon GroupStartup) GroupLive) GroupReady.

Definition validate (pg : ProbeGroup) : error :=
  if pg =? 0 then errEmptyGroup
  else if negb (Z.land pg AllGroups =? pg) then errMissGroup
  else None.

(** ** Targets *)

(** The [HealthCheckable] interface.  [Scope] and [Dest] are the two
    labels.  [Health] is a call into the dependency whose answer may differ
    from one call to the next: what it returned in a poll cycle is the [err]
    field of that cycle's [serviceCheckResult]. *)
Record HealthCheckable : Type := mkService {
  Scope : string;
  Dest : string
}.

Record HealthCheckTarget : Type := mkTarget {
  Service : HealthCheckable;
  Groups : ProbeGroup
}.

Record serviceCheckResult : Type := mkResult {
  target : HealthCheckTarget;
  err : error
}.

(** ** healthResult: the snapshot *)

Record healthResult : Type := mkHealthResult {
  startUp : list error;
  live : list error;
  ready : list error
}.

(** The zero value [healthResult{}]: three nil slices. *)
Definition emptyHealthResult : healthResult := mkHealthResult [] [] [].

Definition newHealthResult : healthResult :=
  mkHealthResult [errNoYetChecked] [errNoYetChecked] [errNoYetChecked].

Definition add (hr : healthResult) (res : serviceCheckResult) : healthResult :=
  let hr1 :=
    if negb (Z.land (Groups (target res)) GroupStartup =? 0)
    then mkHealthResult (startUp hr ++ [err res]) (live hr) (ready hr)
    else hr in
  let hr2 :=
    if negb (Z.land (Groups (target res)) GroupLive =? 0)
    then mkHealthResult (startUp hr1) (live hr1 ++ [err res]) (ready hr1)
    else hr1 in
  if negb (Z.land (Groups (target res)) GroupReady =? 0)
  then mkHealthResult (startUp hr2) (live hr2) (ready hr2 ++ [err res])
  else hr2.

Definition accureError (list : list error) : error := errors_Join list.

(** The loop of [accureNoError]: does the range meet a nil element? *)
Fixpoint hasNil (list : list error) : bool :=
  match list with
  | [] => false
  | None :: _ => true
  | Some _ :: rest => hasNil rest
  end.

Definition accureNoError (list : list error) : error :=
  if hasNil list then None else errors_Join list.

(** The [switch] of [health]: the slice bound to the local [list]; no case
    matching leaves it nil. *)
Definition selected (hr : healthResult) (group : ProbeGroup) : list error :=
  if negb (Z.land group GroupLive =? 0) then live hr
  else if negb (Z.land group GroupReady =? 0) then ready hr
  else if negb (Z.land group GroupStartup =? 0) then startUp hr
  else [].

Definition health (hr : healthResult) (group : ProbeGroup)
    (needAllHealthy : bool) : error :=
  let list := selected hr group in
  if needAllHealthy then accureError list else accureNoError list.

(** ** Inspector *)

(** [time.Duration] counts nanoseconds. *)
Definition Second : Z := 1000000000.
Definition defCheckPeriod : Z := Second * 15.

(** The fields of [Inspector] that configuration, polling and queries read
    or write.  [data] is the published snapshot (the atomic pointer).  The
    metric sink and the two lifecycle channels are left out: no function
    below reads them, and [updateMetric] touches neither [targets] nor
    [data]. *)
Record Inspector : Type := mkInspector {
  targets : list HealthCheckTarget;
  checkPeriod : Z;
  data : healthResult
}.

Definition New (targets : list HealthCheckTarget) : Inspector :=
  mkInspector targets defCheckPeriod newHealthResult.

(** An [Option] mutates the inspector it is applied to and returns an
    error: the inspector after the call comes first, the error second. *)
Definition Option : Type := Inspector -> Inspector * error.

(** The [for ... range targets] loop of [WithTargets]: the first
    validation error met, nil when the range ends. *)
Fixpoint validateTargets (targets : list HealthCheckTarget) : error :=
  match targets with
  | [] => None
  | target :: rest =>
      match validate (Groups target) with
      | Some e => Some e
      | None => validateTargets rest
      end
  end.

Definition WithTargets (targets : list HealthCheckTarget) : Option :=
  fun i =>
    if (List.length targets =? 0)%nat then (i, errMissTargets)
    else match validateTargets targets with
         | Some e => (i, Some e)
         | None => (mkInspector targets (checkPeriod i) (data i), None)
         end.

Definition WithCheckPeriod (p : Z) : Option :=
  fun i =>
    if p <=? 0 then (i, errWrongCheckPeriod)
    else (mkInspector (targets i) p (data i), None).

Definition get (i : Inspector) : healthResult := data i.

Definition CheckGroup (i : Inspector) (group : ProbeGroup)
    (needAllHealthy : bool) : error :=
  let res := get i in
  health res group needAllHealthy.

(** *** One poll cycle

    [check] starts from [healthResult{}], adds every result read from the
    channel and stores the result as the current snapshot.  [results] is
    the content of the channel in the order the concurrent checks
    completed; each entry carries the target it was started for and what
    its [Health] call returned. *)
Definition check (i : Inspector) (results : list serviceCheckResult)
    : Inspector :=
  let result := fold_left add results emptyHealthResult in
  mkInspector (targets i) (checkPeriod i) result.

(** A poll step: every target of the registry is checked once, and the
    results arrive in some order. *)
Inductive poll (i : Inspector) : Inspector -> Prop :=
| poll_cycle (results : list serviceCheckResult) :
    Permutation (map target results) (targets i) ->
    poll i (check i results).


(** ** The HTTP handler *)

(** What a handler does to its [http.ResponseWriter]: the calls it makes,
    oldest first. *)
Inductive writerCall : Type :=
| WriteHeader (statusCode : Z)
| Write (body : string).

Definition ResponseWriter : Type := list writerCall.

Definition StatusOK : Z := 200.
Definition StatusServiceUnavailable : Z := 503.

Definition DefResponseProcessor (err : error) : string :=
  match err with
  | Some _ => "Unhealthy"%string
  | None => "OK"%string
  end.

(** [HealthHandler] closes over the inspector pointer, so the handler it
    returns reads the inspector as it is when the request is served.  A nil
    [toResponse] is [None]. *)
Definition HealthHandler (group : ProbeGroup) (needAllHealthy : bool)
    (toResponse : option (error -> string))
    : Inspector -> ResponseWriter -> ResponseWriter :=
  let toResponse :=
    match toResponse with
    | None => DefResponseProcessor
    | Some f => f
    end in
  fun i w =>
    match CheckGroup i group needAllHealthy with
    | Some e => w ++ [WriteHeader StatusOK; Write (toResponse (Some e))]
    | None => w ++ [WriteHeader StatusServiceUnavailable; Write (toResponse None)]
    end.

(** ** Vocabulary of the statements *)

(** Bit positions of the three groups that own a bucket. *)
Definition bitStartup : Z := 1.
Definition bitLive : Z := 2.
Definition bitReady : Z := 3.

(** [covers bit r]: the target of result [r] has bit [bit] in its mask. *)
Definition covers (bit : Z) (r : serviceCheckResult) : bool :=
  Z.testbit (Groups (target r)) bit.

(** The evaluation [health] applies to the selected slice. *)
Definition verdict (needAllHealthy : bool) (list : list error) : error :=
  if needAllHealthy then accureError list else accureNoError list.

(** ** The metric sink *)

(** One [Set] on the gauge child that [WithLabelValues(scope, dest)]
    selects.  The value is one of the two [float64] constants the source
    writes, [1.0] and [0.0], carried as [1] and [0]. *)
Record gaugeSet : Type := mkGaugeSet {
  labelScope : string;
  labelDest : string;
  gaugeValue : Z
}.

(** What the inspector does to its [*prometheus.GaugeVec]: the [Set] calls
    made, oldest first.  The nil pointer is [None]. *)
Definition GaugeVec : Type := list gaugeSet.

Definition updateMetric (metric : option GaugeVec) (svc : HealthCheckable)
    (err : error) : option GaugeVec :=
  match metric with
  | None => None
  | Some m =>
      let healthy := match err with None => 1 | Some _ => 0 end in
      Some (m ++ [mkGaugeSet (Scope svc) (Dest svc) healthy])
  end.

(** The metric half of the receive loop of [check]: one [updateMetric] for
    each result read from the channel, in the order read. *)
Definition checkMetric (metric : option GaugeVec)
    (results : list serviceCheckResult) : option GaugeVec :=
  fold_left
    (fun m resTarget =>
       updateMetric m (Service (target resTarget)) (err resTarget))
    results metric.

(** [member G r]: the mask of the target of [r] meets the group mask [G],
    the test [Groups & G != 0] of the source. *)
Definition member (G : ProbeGroup) (r : serviceCheckResult) : bool :=
  negb (Z.land (Groups (target r)) G =? 0).

(** * Properties *)

(** ** Bit tests *)

Lemma shiftl_1_pow2 (n : Z) : 0 <= n -> Z.shiftl 1 n = 2 ^ n.
Proof. intros Hn. rewrite Z.shiftl_mul_pow2 by assumption. lia. Qed.

(** The source's test [g & (1 << n) != 0] reads bit [n] of [g]. *)
Lemma land_bit_test (g n : Z) :
  0 <= n -> negb (Z.land g (Z.shiftl 1 n) =? 0) = Z.testbit g n.
Proof.
  intros Hn. rewrite shiftl_1_pow2 by assumption.
  destruct (Z.testbit g n) eqn:Hb.
  - apply negb_true_iff, Z.eqb_neq. intros H0.
    assert (Hc : Z.testbit (Z.land g (2 ^ n)) n = true).
    { rewrite Z.land_spec, Hb, Z.pow2_bits_true by assumption. reflexivity. }
    rewrite H0, Z.bits_0 in Hc. discriminate.
  - apply negb_false_iff, Z.eqb_eq. apply Z.bits_inj'. intros k Hk.
    rewrite Z.land_spec, Z.bits_0, Z.pow2_bits_eqb by assumption.
    destruct (Z.eqb_spec n k) as [->|_].
    + rewrite Hb. reflexivity.
    + apply andb_false_r.
Qed.

Lemma startup_test (g : Z) :
  negb (Z.land g GroupStartup =? 0) = Z.testbit g 1.
Proof. apply land_bit_test. lia. Qed.

Lemma live_test (g : Z) : negb (Z.land g GroupLive =? 0) = Z.testbit g 2.
Proof. apply land_bit_test. lia. Qed.

Lemma ready_test (g : Z) : negb (Z.land g GroupReady =? 0) = Z.testbit g 3.
Proof. apply land_bit_test. lia. Qed.

Lemma AllGroups_bits (k : Z) :
  Z.testbit AllGroups k = (0 <=? k) && (k <? 4).
Proof.
  change AllGroups with (Z.ones 4).
  destruct (Z.leb_spec 0 k) as [H0|H0]; simpl.
  - destruct (Z.ltb_spec k 4) as [H4|H4].
    + apply Z.ones_spec_low. lia.
    + apply Z.ones_spec_high. lia.
  - apply Z.testbit_neg_r. assumption.
Qed.

(** [pg & AllGroups == pg] says that [pg] has no bit set outside bits
    0 to 3. *)
Lemma subset_AllGroups (pg : Z) :
  Z.land pg AllGroups = pg <->
  (forall k, Z.testbit pg k = true -> 0 <= k < 4).
Proof.
  split.
  - intros H k Hk. rewrite <- H, Z.land_spec, AllGroups_bits in Hk.
    apply andb_true_iff in Hk as [_ Hk].
    apply andb_true_iff in Hk as [Hl Hh].
    apply Z.leb_le in Hl. apply Z.ltb_lt in Hh. lia.
  - intros H. apply Z.bits_inj'. intros k _.
    rewrite Z.land_spec, AllGroups_bits.
    destruct (Z.testbit pg k) eqn:Hb; [|reflexivity].
    apply H in Hb. simpl.
    apply andb_true_iff. split; [apply Z.leb_le | apply Z.ltb_lt]; lia.
Qed.

(** ** [validate] *)

Lemma validate_zero : validate 0 = errEmptyGroup.
Proof. reflexivity. Qed.

Lemma validate_subset (m : ProbeGroup) :
  m <> 0 -> Z.land m AllGroups = m -> validate m = None.
Proof.
  intros Hm Hsub. unfold validate.
  destruct (Z.eqb_spec m 0) as [?|_]; [contradiction|].
  rewrite Hsub, Z.eqb_refl. reflexivity.
Qed.

Lemma validate_outside (m : ProbeGroup) :
  m <> 0 -> Z.land m AllGroups <> m -> validate m = errMissGroup.
Proof.
  intros Hm Hsub. unfold validate.
  destruct (Z.eqb_spec m 0) as [?|_]; [contradiction|].
  destruct (Z.eqb_spec (Z.land m AllGroups) m) as [?|_]; [contradiction|].
  reflexivity.
Qed.

(** C6.  A mask that is not zero and has no bit set outside the four
    defined ones (bits 0 to 3: Common, Startup, Live, Ready) validates; the
    zero mask fails with [errEmptyGroup]; a mask with a bit set outside the
    four fails with [errMissGroup]. *)
Theorem validate_spec (m : ProbeGroup) :
  (m <> 0 -> (forall k, Z.testbit m k = true -> 0 <= k < 4) ->
   validate m = None) /\
  (m = 0 -> validate m = errEmptyGroup) /\
  ((exists k, 4 <= k /\ Z.testbit m k = true) -> validate m = errMissGroup).
Proof.
  split; [|split].
  - intros Hm Hbits. apply validate_subset; [assumption|].
    apply subset_AllGroups. assumption.
  - intros ->. apply validate_zero.
  - intros [k [Hk Hb]]. apply validate_outside.
    + intros ->. rewrite Z.bits_0 in Hb. discriminate.
    + intros Hsub. apply (proj1 (subset_AllGroups m)) with (k := k) in Hsub.
      * lia.
      * assumption.
Qed.

(** The three cases of [validate_spec] at the masks [Live|Ready], [0] and
    [16]. *)
Lemma validate_spec_witness :
  validate (Z.lor GroupLive GroupReady) = None /\
  validate 0 = errEmptyGroup /\
  validate 16 = errMissGroup.
Proof.
  split; [|split].
  - apply (proj1 (validate_spec (Z.lor GroupLive GroupReady))).
    + vm_compute. discriminate.
    + intros k Hk.
      destruct (Z.ltb_spec k 0) as [Hn|Hn];
        [rewrite Z.testbit_neg_r in Hk by assumption; discriminate|].
      destruct (Z.ltb_spec k 4) as [Hl|Hl]; [lia|].
      rewrite Z.bits_above_log2 in Hk; [discriminate|vm_compute; discriminate|].
      change (Z.log2 (Z.lor GroupLive GroupReady)) with 3. lia.
  - apply (proj1 (proj2 (validate_spec 0))). reflexivity.
  - apply (proj2 (proj2 (validate_spec 16))).
    exists 4. split; [lia | reflexivity].
Defined.

(** On [uint8] the valid masks are exactly 1 to 15. *)
Lemma validate_uint8 (m : ProbeGroup) :
  is_uint8 m -> (validate m = None <-> 1 <= m <= 15).
Proof.
  intros [Hlo Hhi]. split.
  - intros Hv. unfold validate in Hv.
    destruct (Z.eqb_spec m 0) as [?|Hm]; [discriminate|].
    destruct (Z.eqb_spec (Z.land m AllGroups) m) as [Hsub|?]; [|discriminate].
    change AllGroups with (Z.ones 4) in Hsub.
    rewrite Z.land_ones in Hsub by lia.
    pose proof (Z.mod_pos_bound m (2 ^ 4) ltac:(lia)). lia.
  - intros Hr. apply validate_subset; [lia|].
    change AllGroups with (Z.ones 4). rewrite Z.land_ones by lia.
    apply Z.mod_small. change (2 ^ 4) with 16. lia.
Qed.

(** ** [errors.Join] and the two policies *)

Lemma nonNil_all_nil (l : list error) :
  nonNil l = [] <-> (forall e, In e l -> e = None).
Proof.
  induction l as [|[e|] l IH]; simpl.
  - split; [intros _ e [] | reflexivity].
  - split; [discriminate|].
    intros H. specialize (H (Some e) (or_introl eq_refl)). discriminate.
  - rewrite IH. split.
    + intros H e [<-|Hin]; [reflexivity | apply H; assumption].
    + intros H e Hin. apply H. right. assumption.
Qed.

(** [nonNil] keeps exactly the non-nil entries, in order. *)
Lemma nonNil_filter (l : list error) :
  map Some (nonNil l) =
  filter (fun e => match e with Some _ => true | None => false end) l.
Proof.
  induction l as [|[e|] l IH]; simpl; [reflexivity| |assumption].
  rewrite IH. reflexivity.
Qed.

Lemma errors_Join_nil (l : list error) :
  errors_Join l = None <-> (forall e, In e l -> e = None).
Proof.
  rewrite <- nonNil_all_nil. unfold errors_Join.
  destruct (nonNil l); split; congruence.
Qed.

Lemma errors_Join_some (l : list error) :
  nonNil l <> [] -> errors_Join l = Some (joinError (nonNil l)).
Proof.
  unfold errors_Join. destruct (nonNil l); [congruence | reflexivity].
Qed.

Lemma hasNil_In (l : list error) : hasNil l = true <-> In None l.
Proof.
  induction l as [|[e|] l IH]; simpl.
  - split; [discriminate | intros []].
  - rewrite IH. split; [intros H; right; assumption|].
    intros [H|H]; [discriminate | assumption].
  - split; [intros _; left; reflexivity | reflexivity].
Qed.

Lemma nonNil_no_nil (l : list error) :
  ~ In None l -> map Some (nonNil l) = l.
Proof.
  induction l as [|[e|] l IH]; simpl; intros H.
  - reflexivity.
  - rewrite IH; [reflexivity|]. intros Hin. apply H. right. assumption.
  - exfalso. apply H. left. reflexivity.
Qed.

Lemma accureNoError_nil (l : list error) :
  In None l -> accureNoError l = None.
Proof.
  intros H. unfold accureNoError.
  apply hasNil_In in H. rewrite H. reflexivity.
Qed.

Lemma accureNoError_join (l : list error) :
  ~ In None l -> accureNoError l = errors_Join l.
Proof.
  intros H. unfold accureNoError.
  destruct (hasNil l) eqn:Hn; [|reflexivity].
  apply hasNil_In in Hn. contradiction.
Qed.

(** ** Group queries *)

Lemma health_verdict (hr : healthResult) (group : ProbeGroup) (p : bool) :
  health hr group p = verdict p (selected hr group).
Proof. reflexivity. Qed.

Lemma selected_bits (hr : healthResult) (group : ProbeGroup) :
  selected hr group =
  if Z.testbit group bitLive then live hr
  else if Z.testbit group bitReady then ready hr
  else if Z.testbit group bitStartup then startUp hr
  else [].
Proof.
  unfold selected. rewrite live_test, ready_test, startup_test. reflexivity.
Qed.

Lemma verdict_all_nil (l : list error) :
  verdict true l = None <-> (forall e, In e l -> e = None).
Proof. apply errors_Join_nil. Qed.

Lemma verdict_any_nil (l : list error) :
  verdict false l = None <-> l = [] \/ In None l.
Proof.
  unfold verdict, accureNoError. split.
  - destruct (hasNil l) eqn:Hn.
    + intros _. right. apply hasNil_In. assumption.
    + intros Hj. left. destruct l as [|[e|] l']; [reflexivity| |discriminate].
      unfold errors_Join in Hj. simpl in Hj. discriminate.
  - intros [->|Hin]; [reflexivity|].
    apply hasNil_In in Hin. rewrite Hin. reflexivity.
Qed.

(** C1, as the code has it.  With [needAllHealthy] the query is nil
    exactly when every outcome of the selected bucket is nil, and otherwise
    a join error wrapping the non-nil outcomes of the bucket, in order.
    Without it the query is nil exactly when the bucket is empty or holds a
    nil outcome, and otherwise, on a non-empty bucket with no nil outcome, a
    join error wrapping every outcome of the bucket. *)
Theorem CheckGroup_policy (i : Inspector) (group : ProbeGroup) :
  let list := selected (get i) group in
  (CheckGroup i group true = None <-> (forall e, In e list -> e = None)) /\
  ((exists e, In e list /\ e <> None) ->
   exists es,
     CheckGroup i group true = Some (joinError es) /\
     map Some es =
       filter (fun e => match e with Some _ => true | None => false end)
              list) /\
  (CheckGroup i group false = None <-> list = [] \/ In None list) /\
  (list <> [] -> ~ In None list ->
   exists es,
     CheckGroup i group false = Some (joinError es) /\ map Some es = list).
Proof.
  intros list. unfold CheckGroup. rewrite !health_verdict. fold list.
  split; [apply verdict_all_nil|]. split; [|split].
  - intros [e [Hin Hne]]. exists (nonNil list). split.
    + apply errors_Join_some. intros Hnil. apply Hne.
      apply (proj1 (nonNil_all_nil list) Hnil e Hin).
    + apply nonNil_filter.
  - apply verdict_any_nil.
  - intros Hne Hno. exists (nonNil list).
    assert (Hall : map Some (nonNil list) = list)
      by (apply nonNil_no_nil; assumption).
    split; [|assumption].
    unfold verdict. rewrite accureNoError_join by assumption.
    apply errors_Join_some. intros Hnil.
    rewrite Hnil in Hall. apply Hne. symmetry. exact Hall.
Qed.

(** [CheckGroup_policy] on a live bucket holding one failure and one
    success: the all-healthy query joins the failure, the any-healthy query
    passes. *)
Lemma CheckGroup_policy_witness :
  let svc := {| Scope := "test"; Dest := "x" |} in
  let t := {| Service := svc; Groups := GroupLive |} in
  let fail := errors_New "fail" in
  let i := check (New [t; t])
             [ {| target := t; err := fail |}; {| target := t; err := None |} ] in
  (exists es,
     CheckGroup i GroupLive true = Some (joinError es) /\
     map Some es =
       filter (fun e => match e with Some _ => true | None => false end)
              (selected (get i) GroupLive)) /\
  CheckGroup i GroupLive false = None.
Proof.
  intros svc t fail i. split.
  - apply (proj1 (proj2 (CheckGroup_policy i GroupLive))).
    exists fail. split; [left; reflexivity | discriminate].
  - apply (proj2 (proj1 (proj2 (proj2 (CheckGroup_policy i GroupLive))))).
    right. right. left. reflexivity.
Defined.

(** C1 fails as stated: after a poll cycle over a registry of one
    Common-only target the live bucket is empty, so no outcome in it is
    nil, and yet the any-healthy Live query returns nil, not an error. *)
Lemma any_healthy_empty_counterexample :
  let t := {| Service := {| Scope := "test"; Dest := "metric_test" |};
              Groups := GroupCommon |} in
  let i := check (New [t]) [ {| target := t; err := errors_New "down" |} ] in
  poll (New [t]) i /\
  ~ In None (selected (get i) GroupLive) /\
  CheckGroup i GroupLive false = None.
Proof.
  intros t i. split; [|split].
  - apply poll_cycle. apply Permutation_refl.
  - intros [].
  - reflexivity.
Qed.

(** C2.  A freshly constructed inspector holds exactly the sentinel in each
    of its three buckets, and the queries for Startup, Live and Ready fail
    under both policies. *)
Theorem New_not_yet_checked (ts : list HealthCheckTarget) (p : bool) :
  startUp (get (New ts)) = [errNoYetChecked] /\
  live (get (New ts)) = [errNoYetChecked] /\
  ready (get (New ts)) = [errNoYetChecked] /\
  CheckGroup (New ts) GroupStartup p <> None /\
  CheckGroup (New ts) GroupLive p <> None /\
  CheckGroup (New ts) GroupReady p <> None.
Proof.
  repeat split; destruct p; discriminate.
Qed.

(** C4.  A query mask selects one bucket by priority: bit Live selects the
    live bucket; failing that, bit Ready the ready bucket; failing that, bit
    Startup the startup bucket.  The verdict is computed from that bucket
    alone. *)
Theorem health_priority (hr : healthResult) (group : ProbeGroup) (p : bool) :
  (Z.testbit group bitLive = true ->
   selected hr group = live hr /\ health hr group p = verdict p (live hr)) /\
  (Z.testbit group bitLive = false -> Z.testbit group bitReady = true ->
   selected hr group = ready hr /\ health hr group p = verdict p (ready hr)) /\
  (Z.testbit group bitLive = false -> Z.testbit group bitReady = false ->
   Z.testbit group bitStartup = true ->
   selected hr group = startUp hr /\
   health hr group p = verdict p (startUp hr)).
Proof.
  rewrite health_verdict, selected_bits.
  split; [|split].
  - intros ->. split; reflexivity.
  - intros -> ->. split; reflexivity.
  - intros -> -> ->. split; reflexivity.
Qed.

(** [health_priority] at the combined masks Startup|Live|Ready,
    Startup|Ready and Common|Startup. *)
Lemma health_priority_witness :
  let hr := {| startUp := [None]; live := [errors_New "l"];
               ready := [errors_New "r"] |} in
  health hr (Z.lor (Z.lor GroupStartup GroupLive) GroupReady) true
    = verdict true (live hr) /\
  health hr (Z.lor GroupStartup GroupReady) true = verdict true (ready hr) /\
  health hr (Z.lor GroupCommon GroupStartup) true = verdict true (startUp hr).
Proof.
  intros hr. split; [|split].
  - apply (proj1 (health_priority hr _ true)). reflexivity.
  - apply (proj1 (proj2 (health_priority hr _ true))); reflexivity.
  - apply (proj2 (proj2 (health_priority hr _ true))); reflexivity.
Defined.

(** ** Merging results: [add] *)

Lemma add_startUp (hr : healthResult) (res : serviceCheckResult) :
  startUp (add hr res) =
  if covers bitStartup res then startUp hr ++ [err res] else startUp hr.
Proof.
  unfold add, covers, bitStartup, bitLive, bitReady.
  rewrite startup_test, live_test, ready_test.
  destruct (Z.testbit (Groups (target res)) 1),
    (Z.testbit (Groups (target res)) 2),
    (Z.testbit (Groups (target res)) 3); reflexivity.
Qed.

Lemma add_live (hr : healthResult) (res : serviceCheckResult) :
  live (add hr res) =
  if covers bitLive res then live hr ++ [err res] else live hr.
Proof.
  unfold add, covers, bitStartup, bitLive, bitReady.
  rewrite startup_test, live_test, ready_test.
  destruct (Z.testbit (Groups (target res)) 1),
    (Z.testbit (Groups (target res)) 2),
    (Z.testbit (Groups (target res)) 3); reflexivity.
Qed.

Lemma add_ready (hr : healthResult) (res : serviceCheckResult) :
  ready (add hr res) =
  if covers bitReady res then ready hr ++ [err res] else ready hr.
Proof.
  unfold add, covers, bitStartup, bitLive, bitReady.
  rewrite startup_test, live_test, ready_test.
  destruct (Z.testbit (Groups (target res)) 1),
    (Z.testbit (Groups (target res)) 2),
    (Z.testbit (Groups (target res)) 3); reflexivity.
Qed.

Lemma healthResult_ext (a b : healthResult) :
  startUp a = startUp b -> live a = live b -> ready a = ready b -> a = b.
Proof. destruct a, b. simpl. intros -> -> ->. reflexivity. Qed.

(** Setting the Common bit changes none of bits 1 to 3. *)
Lemma lor_Common_bit (g k : Z) :
  1 <= k -> Z.testbit (Z.lor g GroupCommon) k = Z.testbit g k.
Proof.
  intros Hk. rewrite Z.lor_spec.
  change GroupCommon with (2 ^ 0). rewrite Z.pow2_bits_false by lia.
  apply orb_false_r.
Qed.

(** C5.  [add] appends the outcome to the startup, live and ready buckets
    whose bit the target's mask has, each bucket on its own, and leaves the
    other buckets as they were.  The Common bit feeds no bucket: setting it
    in the mask changes nothing, and a Common-only target leaves the
    snapshot as it was. *)
Theorem add_buckets (hr : healthResult) (res : serviceCheckResult) :
  let g := Groups (target res) in
  startUp (add hr res) =
    (if Z.testbit g bitStartup then startUp hr ++ [err res] else startUp hr) /\
  live (add hr res) =
    (if Z.testbit g bitLive then live hr ++ [err res] else live hr) /\
  ready (add hr res) =
    (if Z.testbit g bitReady then ready hr ++ [err res] else ready hr) /\
  add hr {| target := {| Service := Service (target res);
                         Groups := Z.lor g GroupCommon |};
            err := err res |} = add hr res /\
  add hr {| target := {| Service := Service (target res);
                         Groups := GroupCommon |};
            err := err res |} = hr.
Proof.
  intros g. split; [|split; [|split; [|split]]].
  - apply add_startUp.
  - apply add_live.
  - apply add_ready.
  - apply healthResult_ext;
      rewrite ?add_startUp, ?add_live, ?add_ready; unfold covers;
      cbn [target Groups err];
      rewrite lor_Common_bit by (unfold bitStartup, bitLive, bitReady; lia);
      reflexivity.
  - destruct hr. reflexivity.
Qed.

(** The buckets after merging a run of results into [hr]: each bucket gains
    the outcomes of the results covering it, in arrival order. *)
Lemma merge_buckets (results : list serviceCheckResult) :
  forall hr,
    startUp (fold_left add results hr) =
      startUp hr ++ map err (filter (covers bitStartup) results) /\
    live (fold_left add results hr) =
      live hr ++ map err (filter (covers bitLive) results) /\
    ready (fold_left add results hr) =
      ready hr ++ map err (filter (covers bitReady) results).
Proof.
  induction results as [|r results IH]; intros hr; cbn [fold_left filter].
  - cbn [map]. rewrite !app_nil_r. auto.
  - destruct (IH (add hr r)) as [Hs [Hl Hr]].
    rewrite Hs, Hl, Hr, add_startUp, add_live, add_ready.
    destruct (covers bitStartup r), (covers bitLive r), (covers bitReady r);
      cbn [map]; rewrite <- ?app_assoc; repeat split; reflexivity.
Qed.

(** The bucket a mask selects, after a merge. *)
Lemma selected_merge (results : list serviceCheckResult)
    (hr : healthResult) (group : ProbeGroup) :
  selected (fold_left add results hr) group =
  if Z.testbit group bitLive
  then live hr ++ map err (filter (covers bitLive) results)
  else if Z.testbit group bitReady
  then ready hr ++ map err (filter (covers bitReady) results)
  else if Z.testbit group bitStartup
  then startUp hr ++ map err (filter (covers bitStartup) results)
  else [].
Proof.
  rewrite selected_bits.
  destruct (merge_buckets results hr) as [-> [-> ->]]. reflexivity.
Qed.

(** A mask disjoint from [B] has none of the bits of [B]. *)
Lemma disjoint_bit (g B k : Z) :
  Z.land g B = 0 -> Z.testbit B k = true -> Z.testbit g k = false.
Proof.
  intros Hd Hb.
  assert (H : Z.testbit (Z.land g B) k = false) by (rewrite Hd; apply Z.bits_0).
  rewrite Z.land_spec, Hb, andb_true_r in H. assumption.
Qed.

Lemma filter_drop {A : Type} (f : A -> bool) (pre post : list A) (x : A) :
  f x = false -> filter f (pre ++ x :: post) = filter f (pre ++ post).
Proof.
  intros Hx. rewrite !filter_app. simpl. rewrite Hx. reflexivity.
Qed.

(** C8.  A result whose target's mask is disjoint from the queried group
    [B] does not reach the bucket [B] selects: the bucket, and the query
    under either policy, are the same with and without that result in the
    poll cycle, whatever its outcome and wherever it arrives. *)
Theorem group_isolation (i : Inspector) (pre post : list serviceCheckResult)
    (r : serviceCheckResult) (B : ProbeGroup) :
  Z.land (Groups (target r)) B = 0 ->
  selected (get (check i (pre ++ r :: post))) B =
    selected (get (check i (pre ++ post))) B /\
  forall p, CheckGroup (check i (pre ++ r :: post)) B p =
            CheckGroup (check i (pre ++ post)) B p.
Proof.
  intros Hd.
  assert (Hsel : selected (get (check i (pre ++ r :: post))) B =
                 selected (get (check i (pre ++ post))) B).
  { unfold get, check. simpl. rewrite !selected_merge.
    destruct (Z.testbit B bitLive) eqn:Hl.
    { rewrite filter_drop by (apply (disjoint_bit _ B); assumption).
      reflexivity. }
    destruct (Z.testbit B bitReady) eqn:Hr.
    { rewrite filter_drop by (apply (disjoint_bit _ B); assumption).
      reflexivity. }
    destruct (Z.testbit B bitStartup) eqn:Hs; [|reflexivity].
    rewrite filter_drop by (apply (disjoint_bit _ B); assumption).
    reflexivity. }
  split; [assumption|].
  intros p. unfold CheckGroup. rewrite !health_verdict, Hsel. reflexivity.
Qed.

(** [group_isolation] for a failing Live-only target queried through
    Startup, next to a healthy Startup target. *)
Lemma group_isolation_witness :
  let svc := {| Scope := "test"; Dest := "x" |} in
  let ok := {| target := {| Service := svc; Groups := GroupStartup |};
               err := None |} in
  let bad := {| target := {| Service := svc; Groups := GroupLive |};
                err := errors_New "fail" |} in
  selected (get (check (New []) ([ok] ++ bad :: []))) GroupStartup =
    selected (get (check (New []) ([ok] ++ []))) GroupStartup /\
  forall p, CheckGroup (check (New []) ([ok] ++ bad :: [])) GroupStartup p =
            CheckGroup (check (New []) ([ok] ++ [])) GroupStartup p.
Proof.
  intros svc ok bad.
  apply (group_isolation (New []) [ok] [] bad GroupStartup).
  reflexivity.
Defined.

(** ** Snapshots before and after a poll cycle *)

Lemma filter_none {A : Type} (f : A -> bool) (l : list A) :
  (forall x, In x l -> f x = false) -> filter f l = [].
Proof.
  induction l as [|x l IH]; intros H; simpl; [reflexivity|].
  rewrite (H x (or_introl eq_refl)). apply IH.
  intros y Hy. apply H. right. assumption.
Qed.

Lemma verdict_empty (p : bool) : verdict p [] = None.
Proof. destruct p; reflexivity. Qed.





(** ** Configuration: [WithTargets] *)

Lemma validate_errors (pg : ProbeGroup) :
  validate pg = None \/ validate pg = errEmptyGroup \/
  validate pg = errMissGroup.
Proof.
  unfold validate.
  destruct (pg =? 0); [right; left; reflexivity|].
  destruct (Z.land pg AllGroups =? pg); simpl; auto.
Qed.

Lemma validateTargets_nil (ts : list HealthCheckTarget) :
  validateTargets ts = None <->
  (forall t, In t ts -> validate (Groups t) = None).
Proof.
  induction ts as [|t ts IH]; simpl.
  - split; [intros _ t [] | reflexivity].
  - destruct (validate (Groups t)) as [e|] eqn:Hv.
    + split; [discriminate|].
      intros H. specialize (H t (or_introl eq_refl)). congruence.
    + rewrite IH. split.
      * intros H u [<-|Hu]; [assumption | apply H; assumption].
      * intros H u Hu. apply H. right. assumption.
Qed.

(** The error of the loop is the validation error of one of the targets. *)
Lemma validateTargets_some (ts : list HealthCheckTarget) (e : goError) :
  validateTargets ts = Some e ->
  exists t, In t ts /\ validate (Groups t) = Some e.
Proof.
  induction ts as [|t ts IH]; simpl; [discriminate|].
  destruct (validate (Groups t)) as [e'|] eqn:Hv.
  - intros [= ->]. exists t. split; [left; reflexivity | assumption].
  - intros H. destruct (IH H) as [u [Hu Hvu]].
    exists u. split; [right; assumption | assumption].
Qed.

(** C7.  [WithTargets] fails with [errMissTargets] on no targets; when
    some supplied target has an invalid mask it fails with the validation
    error of a supplied target, which is [errEmptyGroup] or [errMissGroup];
    when there is at least one target and every mask is valid it succeeds
    and the registry is the supplied list, the other fields kept; whenever
    it fails the inspector is left as it was. *)
Theorem WithTargets_spec (ts : list HealthCheckTarget) (i : Inspector) :
  (ts = [] -> WithTargets ts i = (i, errMissTargets)) /\
  ((exists t, In t ts /\ validate (Groups t) <> None) ->
   exists t, In t ts /\ validate (Groups t) <> None /\
     WithTargets ts i = (i, validate (Groups t)) /\
     (validate (Groups t) = errEmptyGroup \/
      validate (Groups t) = errMissGroup)) /\
  (ts <> [] -> (forall t, In t ts -> validate (Groups t) = None) ->
   WithTargets ts i =
     ({| targets := ts; checkPeriod := checkPeriod i; data := data i |},
      None)) /\
  (snd (WithTargets ts i) <> None -> fst (WithTargets ts i) = i).
Proof.
  split; [|split; [|split]].
  - intros ->. reflexivity.
  - intros [t [Hin Hbad]].
    destruct (validateTargets ts) as [e|] eqn:Hv.
    + destruct (validateTargets_some ts e Hv) as [u [Hu Hvu]].
      exists u. split; [assumption|]. split; [congruence|]. split.
      * unfold WithTargets. destruct ts as [|t0 ts']; [destruct Hin|].
        cbn [List.length Nat.eqb]. rewrite Hv, Hvu. reflexivity.
      * destruct (validate_errors (Groups u)) as [H|H]; [congruence|exact H].
    + exfalso. apply Hbad.
      apply (proj1 (validateTargets_nil ts) Hv). assumption.
  - intros Hne Hall. unfold WithTargets.
    destruct ts as [|t0 ts']; [congruence|].
    cbn [List.length Nat.eqb].
    rewrite (proj2 (validateTargets_nil (t0 :: ts')) Hall). reflexivity.
  - unfold WithTargets. destruct (List.length ts =? 0)%nat; [reflexivity|].
    destruct (validateTargets ts); [reflexivity|].
    simpl. congruence.
Qed.

(** [WithTargets_spec] on an empty list, on a list whose second target has
    the mask 251, and on a list of two valid targets, each applied to an
    inspector built with one Live target. *)
Lemma WithTargets_spec_witness :
  let svc := {| Scope := "test"; Dest := "x" |} in
  let old := New [ {| Service := svc; Groups := GroupLive |} ] in
  let good := [ {| Service := svc; Groups := GroupStartup |};
                {| Service := svc; Groups := AllGroups |} ] in
  let bad := [ {| Service := svc; Groups := GroupStartup |};
               {| Service := svc; Groups := 251 |} ] in
  WithTargets [] old = (old, errMissTargets) /\
  fst (WithTargets bad old) = old /\
  WithTargets good old =
    ({| targets := good; checkPeriod := checkPeriod old; data := data old |},
     None).
Proof.
  intros svc old good bad. split; [|split].
  - apply (proj1 (WithTargets_spec [] old)). reflexivity.
  - apply (proj2 (proj2 (proj2 (WithTargets_spec bad old)))).
    vm_compute. discriminate.
  - apply (proj1 (proj2 (proj2 (WithTargets_spec good old)))).
    + discriminate.
    + intros t [<-|[<-|[]]]; reflexivity.
Defined.

(** ** The HTTP handler *)

(** C9.  The handler writes status 503 when the group query returns nil and
    status 200 when it returns an error, followed by the body the formatter
    gives for that result; the default formatter gives [OK] for nil and
    [Unhealthy] for an error. *)
Theorem HealthHandler_status (i : Inspector) (group : ProbeGroup)
    (needAllHealthy : bool) (w : ResponseWriter) :
  (forall f,
     (CheckGroup i group needAllHealthy = None ->
      HealthHandler group needAllHealthy (Some f) i w =
        w ++ [WriteHeader 503; Write (f None)]) /\
     (forall e, CheckGroup i group needAllHealthy = Some e ->
      HealthHandler group needAllHealthy (Some f) i w =
        w ++ [WriteHeader 200; Write (f (Some e))])) /\
  (CheckGroup i group needAllHealthy = None ->
   HealthHandler group needAllHealthy None i w =
     w ++ [WriteHeader 503; Write "OK"%string]) /\
  (CheckGroup i group needAllHealthy <> None ->
   HealthHandler group needAllHealthy None i w =
     w ++ [WriteHeader 200; Write "Unhealthy"%string]).
Proof.
  unfold HealthHandler. split; [|split].
  - intros f. split.
    + intros ->. reflexivity.
    + intros e ->. reflexivity.
  - intros ->. reflexivity.
  - destruct (CheckGroup i group needAllHealthy); [reflexivity|congruence].
Qed.

(** [HealthHandler_status] on a fresh recorder: 503 and [OK] after a poll
    cycle whose only Ready target is healthy, 200 and [Unhealthy] before
    any poll cycle. *)
Lemma HealthHandler_status_witness :
  let t := {| Service := {| Scope := "test"; Dest := "x" |};
              Groups := GroupReady |} in
  let fresh := New [t] in
  let polled := check fresh [ {| target := t; err := None |} ] in
  HealthHandler GroupReady true None polled [] =
    [WriteHeader 503; Write "OK"%string] /\
  HealthHandler GroupReady true None fresh [] =
    [WriteHeader 200; Write "Unhealthy"%string].
Proof.
  intros t fresh polled. split.
  - apply (proj1 (proj2 (HealthHandler_status polled GroupReady true []))).
    reflexivity.
  - apply (proj2 (proj2 (HealthHandler_status fresh GroupReady true []))).
    discriminate.
Defined.

(** ** Masks that select no bucket *)

(** C10.  A query mask with none of the bits Startup, Live and Ready
    selects no bucket and the query returns nil under both policies,
    whatever the snapshot holds; so it is for the Common mask and for the
    masks 0 and 16, which [validate] rejects: the query does not validate
    its mask. *)
Theorem CheckGroup_no_bucket (i : Inspector) (p : bool) :
  (forall group,
     Z.testbit group bitStartup = false ->
     Z.testbit group bitLive = false ->
     Z.testbit group bitReady = false ->
     selected (get i) group = [] /\ CheckGroup i group p = None) /\
  CheckGroup i GroupCommon p = None /\
  (validate 0 <> None /\ CheckGroup i 0 p = None) /\
  (validate 16 <> None /\ CheckGroup i 16 p = None).
Proof.
  assert (H : forall group,
     Z.testbit group bitStartup = false ->
     Z.testbit group bitLive = false ->
     Z.testbit group bitReady = false ->
     selected (get i) group = [] /\ CheckGroup i group p = None).
  { intros group Hs Hl Hr. unfold CheckGroup.
    rewrite health_verdict, selected_bits, Hs, Hl, Hr.
    split; [reflexivity | apply verdict_empty]. }
  split; [exact H|]. split; [|split].
  - apply H; reflexivity.
  - split; [discriminate | apply H; reflexivity].
  - split; [discriminate | apply H; reflexivity].
Qed.

(** [CheckGroup_no_bucket] for the mask Common|16 on a fresh inspector,
    whose three buckets all hold the sentinel. *)
Lemma CheckGroup_no_bucket_witness :
  selected (get (New [])) (Z.lor GroupCommon 16) = [] /\
  CheckGroup (New []) (Z.lor GroupCommon 16) true = None.
Proof.
  apply (proj1 (CheckGroup_no_bucket (New []) true)); reflexivity.
Defined.

(** * Further properties of the code *)

(** ** Valid masks *)

Lemma validate_nil_iff (m : ProbeGroup) :
  validate m = None <-> m <> 0 /\ Z.land m AllGroups = m.
Proof.
  unfold validate. split.
  - destruct (Z.eqb_spec m 0) as [?|Hm]; [discriminate|].
    destruct (Z.eqb_spec (Z.land m AllGroups) m) as [Hs|?]; [|discriminate].
    intros _. split; assumption.
  - intros [Hm Hs]. apply validate_subset; assumption.
Qed.

(** The accepted masks of a [uint8] are the fifteen values 1 to 15. *)
Lemma validate_uint8_witness : validate 10 = None <-> 1 <= 10 <= 15.
Proof.
  apply (validate_uint8 10). unfold is_uint8. lia.
Defined.

(** Valid masks combine by bitwise OR into valid masks. *)
Theorem validate_lor (a b : ProbeGroup) :
  validate a = None -> validate b = None -> validate (Z.lor a b) = None.
Proof.
  intros Ha Hb.
  apply validate_nil_iff in Ha as [Ha0 Ha].
  apply validate_nil_iff in Hb as [_ Hb].
  apply validate_nil_iff. split.
  - intros H0. apply Z.lor_eq_0_iff in H0 as [H0 _]. contradiction.
  - rewrite Z.land_lor_distr_l, Ha, Hb. reflexivity.
Qed.

(** Startup combined with Live|Common. *)
Lemma validate_lor_witness :
  validate (Z.lor GroupStartup (Z.lor GroupLive GroupCommon)) = None.
Proof.
  apply (validate_lor GroupStartup (Z.lor GroupLive GroupCommon));
    reflexivity.
Defined.

(** ** Configuration options *)

(** [WithTargets] succeeds exactly on a non-empty list of targets whose
    masks all validate; the registry it leaves is then that list, so a
    registry set through [WithTargets] holds only valid masks. *)
Theorem WithTargets_success_iff (ts : list HealthCheckTarget) (i : Inspector) :
  (snd (WithTargets ts i) = None <->
   ts <> [] /\ forall t, In t ts -> validate (Groups t) = None) /\
  (snd (WithTargets ts i) = None ->
   targets (fst (WithTargets ts i)) = ts /\
   targets (fst (WithTargets ts i)) <> [] /\
   forall t, In t (targets (fst (WithTargets ts i))) ->
             1 <= Groups t <= 15).
Proof.
  assert (Hiff : snd (WithTargets ts i) = None <->
                 ts <> [] /\ forall t, In t ts -> validate (Groups t) = None).
  { unfold WithTargets. destruct ts as [|t0 ts'].
    - simpl. split; [discriminate | intros [H _]; congruence].
    - cbn [List.length Nat.eqb].
      destruct (validateTargets (t0 :: ts')) as [e|] eqn:Hv; cbn [snd].
      + split; [discriminate|]. intros [_ Hall].
        apply validateTargets_nil in Hall. congruence.
      + split; [|reflexivity]. intros _. split; [discriminate|].
        apply validateTargets_nil. assumption. }
  split; [exact Hiff|].
  intros Hok. destruct (proj1 Hiff Hok) as [Hne Hall].
  assert (Hts : targets (fst (WithTargets ts i)) = ts).
  { unfold WithTargets. destruct ts as [|t0 ts']; [congruence|].
    cbn [List.length Nat.eqb].
    rewrite (proj2 (validateTargets_nil (t0 :: ts')) Hall). reflexivity. }
  rewrite Hts. split; [reflexivity|]. split; [assumption|].
  intros t Ht. specialize (Hall t Ht).
  apply validate_nil_iff in Hall as [H0 Hsub].
  change AllGroups with (Z.ones 4) in Hsub.
  rewrite Z.land_ones in Hsub by lia.
  pose proof (Z.mod_pos_bound (Groups t) (2 ^ 4) ltac:(lia)). lia.
Qed.

(** A registry of one Live|Ready target set on a new inspector. *)
Lemma WithTargets_success_iff_witness :
  let t := {| Service := {| Scope := "db"; Dest := "x" |};
              Groups := Z.lor GroupLive GroupReady |} in
  targets (fst (WithTargets [t] (New []))) = [t] /\
  targets (fst (WithTargets [t] (New []))) <> [] /\
  forall u, In u (targets (fst (WithTargets [t] (New [])))) ->
            1 <= Groups u <= 15.
Proof.
  intros t. apply (proj2 (WithTargets_success_iff [t] (New []))).
  reflexivity.
Defined.

(** [WithCheckPeriod] succeeds exactly on a positive period and otherwise
    fails with [errWrongCheckPeriod], leaving the inspector as it was.  The
    two options do not interfere: whether one fails does not depend on the
    inspector, and applying both in either order leaves the same
    inspector. *)
Theorem options_commute (ts : list HealthCheckTarget) (p : Z)
    (i : Inspector) :
  (snd (WithCheckPeriod p i) = None <-> 0 < p) /\
  (p <= 0 -> WithCheckPeriod p i = (i, errWrongCheckPeriod)) /\
  snd (WithCheckPeriod p (fst (WithTargets ts i))) =
    snd (WithCheckPeriod p i) /\
  snd (WithTargets ts (fst (WithCheckPeriod p i))) = snd (WithTargets ts i) /\
  fst (WithCheckPeriod p (fst (WithTargets ts i))) =
    fst (WithTargets ts (fst (WithCheckPeriod p i))).
Proof.
  unfold WithCheckPeriod, WithTargets.
  destruct (Z.leb_spec p 0) as [Hp|Hp];
    destruct (List.length ts =? 0)%nat;
    destruct (validateTargets ts); cbn [fst snd targets checkPeriod data];
    repeat split; try reflexivity; try discriminate; try lia;
    intros; try lia; try discriminate.
Qed.

(** The zero period is refused. *)
Lemma options_commute_witness :
  WithCheckPeriod 0 (New []) = (New [], errWrongCheckPeriod).
Proof.
  apply (proj1 (proj2 (options_commute [] 0 (New [])))). lia.
Defined.

(** Configuration never touches the published snapshot: after either
    option, whether it failed or not, every query and every handler answers
    as before. *)
Theorem options_keep_snapshot (ts : list HealthCheckTarget) (p : Z)
    (i : Inspector) (group : ProbeGroup) (needAllHealthy : bool) :
  get (fst (WithTargets ts i)) = get i /\
  get (fst (WithCheckPeriod p i)) = get i /\
  CheckGroup (fst (WithTargets ts i)) group needAllHealthy =
    CheckGroup i group needAllHealthy /\
  CheckGroup (fst (WithCheckPeriod p i)) group needAllHealthy =
    CheckGroup i group needAllHealthy /\
  forall f w,
    HealthHandler group needAllHealthy f (fst (WithTargets ts i)) w =
      HealthHandler group needAllHealthy f i w /\
    HealthHandler group needAllHealthy f (fst (WithCheckPeriod p i)) w =
      HealthHandler group needAllHealthy f i w.
Proof.
  assert (Ht : get (fst (WithTargets ts i)) = get i).
  { unfold WithTargets, get. destruct (List.length ts =? 0)%nat;
      [reflexivity|]. destruct (validateTargets ts); reflexivity. }
  assert (Hp : get (fst (WithCheckPeriod p i)) = get i).
  { unfold WithCheckPeriod, get. destruct (p <=? 0); reflexivity. }
  unfold HealthHandler, CheckGroup. rewrite Ht, Hp.
  repeat split; reflexivity.
Qed.

(** ** The two policies compared *)

(** The any-healthy query passes exactly when the selected bucket is empty
    or holds a nil outcome; when it fails, the error wraps every outcome of
    the bucket, none of them nil. *)
Theorem CheckGroup_any_iff (i : Inspector) (group : ProbeGroup) :
  let list := selected (get i) group in
  (CheckGroup i group false = None <-> list = [] \/ In None list) /\
  (forall e, CheckGroup i group false = Some e ->
     exists es, e = joinError es /\ map Some es = list /\ es <> []).
Proof.
  intros list. unfold CheckGroup. rewrite health_verdict. fold list.
  split; [apply verdict_any_nil|].
  intros e He.
  assert (Hno : ~ In None list).
  { intros Hin. rewrite (proj2 (verdict_any_nil list)) in He by (right; exact Hin).
    discriminate. }
  unfold verdict in He. rewrite accureNoError_join in He by assumption.
  exists (nonNil list). unfold errors_Join in He.
  destruct (nonNil list) as [|e0 es] eqn:Hnn; [discriminate|].
  injection He as <-. split; [reflexivity|].
  split; [|discriminate]. rewrite <- Hnn. apply nonNil_no_nil. assumption.
Qed.

(** The all-healthy policy is the stricter one: whenever it passes, the
    any-healthy policy passes on the same snapshot and mask; and whenever
    the any-healthy policy fails, the all-healthy policy fails with the
    same error. *)
Theorem policy_order (i : Inspector) (group : ProbeGroup) :
  (CheckGroup i group true = None -> CheckGroup i group false = None) /\
  (forall e, CheckGroup i group false = Some e ->
             CheckGroup i group true = Some e).
Proof.
  unfold CheckGroup. rewrite !health_verdict.
  set (list := selected (get i) group).
  split.
  - intros Hall. apply verdict_any_nil.
    destruct list as [|e l'] eqn:Hl; [left; reflexivity|].
    right. left. apply (proj1 (verdict_all_nil _) Hall).
    left. reflexivity.
  - intros e He. unfold verdict, accureNoError in He.
    destruct (hasNil list); [discriminate|]. exact He.
Qed.

(** One healthy Startup target: the all-healthy query passes, hence so
    does the any-healthy one. *)
Lemma policy_order_witness :
  let t := {| Service := {| Scope := "test"; Dest := "ok" |};
              Groups := GroupStartup |} in
  CheckGroup (check (New [t]) [ {| target := t; err := None |} ])
    GroupStartup false = None.
Proof.
  intros t. apply (proj1 (policy_order _ GroupStartup)). reflexivity.
Defined.

(** ** What a poll cycle publishes *)

(** [check] keeps the registry and the period, and publishes buckets built
    from this cycle's results alone: each bucket holds the outcomes of the
    results whose target has the bucket's bit, in arrival order.  Nothing of
    the previous snapshot survives, so of two cycles only the later one
    shows. *)
Theorem check_buckets (i : Inspector) (results : list serviceCheckResult) :
  targets (check i results) = targets i /\
  checkPeriod (check i results) = checkPeriod i /\
  startUp (get (check i results)) =
    map err (filter (covers bitStartup) results) /\
  live (get (check i results)) = map err (filter (covers bitLive) results) /\
  ready (get (check i results)) =
    map err (filter (covers bitReady) results) /\
  forall earlier, check (check i earlier) results = check i results.
Proof.
  unfold get, check. cbn [targets checkPeriod data].
  destruct (merge_buckets results emptyHealthResult) as [-> [-> ->]].
  repeat split; reflexivity.
Qed.

(** The bucket of a single group after a poll cycle: the outcomes of the
    results that belong to the group. *)
Lemma selected_check (i : Inspector) (results : list serviceCheckResult)
    (G : ProbeGroup) :
  In G [GroupStartup; GroupLive; GroupReady] ->
  selected (get (check i results)) G = map err (filter (member G) results).
Proof.
  intros HG. unfold get, check. cbn [data]. rewrite selected_merge.
  cbn [emptyHealthResult startUp live ready app].
  destruct HG as [<-|[<-|[<-|[]]]].
  - change (Z.testbit GroupStartup bitLive) with false.
    change (Z.testbit GroupStartup bitReady) with false.
    change (Z.testbit GroupStartup bitStartup) with true.
    cbv iota. f_equal. apply filter_ext. intros r.
    symmetry. apply startup_test.
  - change (Z.testbit GroupLive bitLive) with true.
    cbv iota. f_equal. apply filter_ext. intros r.
    symmetry. apply live_test.
  - change (Z.testbit GroupReady bitLive) with false.
    change (Z.testbit GroupReady bitReady) with true.
    cbv iota. f_equal. apply filter_ext. intros r.
    symmetry. apply ready_test.
Qed.

Lemma filter_nil_iff {A : Type} (f : A -> bool) (l : list A) :
  filter f l = [] <-> (forall x, In x l -> f x = false).
Proof.
  split; [|apply filter_none].
  induction l as [|x l IH]; simpl; [intros _ y []|].
  destruct (f x) eqn:Hx; [discriminate|].
  intros Hl y [<-|Hy]; [assumption | apply IH; assumption].
Qed.

Lemma In_bucket (f : serviceCheckResult -> bool)
    (results : list serviceCheckResult) (e : error) :
  In e (map err (filter f results)) <->
  exists r, In r results /\ f r = true /\ err r = e.
Proof.
  rewrite in_map_iff. split.
  - intros [r [He Hr]]. apply filter_In in Hr as [Hr Hf].
    exists r. auto.
  - intros [r [Hr [Hf He]]]. exists r. split; [assumption|].
    apply filter_In. auto.
Qed.

(** After a poll cycle the verdict of a single group (Startup, Live or
    Ready) is decided by the results of that group's targets: the
    all-healthy query passes exactly when each of them succeeded, the
    any-healthy query exactly when one of them succeeded or the group has no
    target at all. *)
Theorem CheckGroup_after_check (i : Inspector)
    (results : list serviceCheckResult) (G : ProbeGroup) :
  In G [GroupStartup; GroupLive; GroupReady] ->
  (CheckGroup (check i results) G true = None <->
   forall r, In r results -> member G r = true -> err r = None) /\
  (CheckGroup (check i results) G false = None <->
   (forall r, In r results -> member G r = false) \/
   exists r, In r results /\ member G r = true /\ err r = None).
Proof.
  intros HG. unfold CheckGroup.
  rewrite !health_verdict, (selected_check i results G HG). split.
  - rewrite verdict_all_nil. split.
    + intros H r Hr Hm. apply H. apply In_bucket. exists r. auto.
    + intros H e He. apply In_bucket in He as [r [Hr [Hm <-]]]. auto.
  - rewrite verdict_any_nil, In_bucket, <- filter_nil_iff. split.
    + intros [Hnil|Hex]; [left | right; assumption].
      destruct (filter (member G) results); [reflexivity | discriminate].
    + intros [Hnil|Hex]; [left; rewrite Hnil; reflexivity | right; assumption].
Qed.

(** One failing and one healthy Ready target: the all-healthy query fails,
    the any-healthy query passes. *)
Lemma CheckGroup_after_check_witness :
  let svc := {| Scope := "test"; Dest := "x" |} in
  let t := {| Service := svc; Groups := GroupReady |} in
  let rs := [ {| target := t; err := errors_New "fail" |};
              {| target := t; err := None |} ] in
  (CheckGroup (check (New [t; t]) rs) GroupReady true = None <->
   forall r, In r rs -> member GroupReady r = true -> err r = None) /\
  (CheckGroup (check (New [t; t]) rs) GroupReady false = None <->
   (forall r, In r rs -> member GroupReady r = false) \/
   exists r, In r rs /\ member GroupReady r = true /\ err r = None).
Proof.
  intros svc t rs. apply (CheckGroup_after_check (New [t; t]) rs GroupReady).
  right. right. left. reflexivity.
Defined.

(** ** Completion order *)

Lemma filter_Permutation {A : Type} (f : A -> bool) (l l' : list A) :
  Permutation l l' -> Permutation (filter f l) (filter f l').
Proof.
  induction 1 as [|x l l' _ IH|x y l|l l' l'' _ IH1 _ IH2]; simpl.
  - constructor.
  - destruct (f x); [constructor|]; assumption.
  - destruct (f x), (f y); try apply Permutation_refl.
    apply perm_swap.
  - apply (Permutation_trans IH1 IH2).
Qed.

Lemma verdict_Permutation (p : bool) (l l' : list error) :
  Permutation l l' -> (verdict p l = None <-> verdict p l' = None).
Proof.
  intros Hp. assert (Hq := Permutation_sym Hp). destruct p.
  - rewrite !verdict_all_nil. split; intros H e He; apply H.
    + apply (Permutation_in _ Hq). assumption.
    + apply (Permutation_in _ Hp). assumption.
  - rewrite !verdict_any_nil. split; intros [->|Hin].
    + left. apply Permutation_nil. assumption.
    + right. apply (Permutation_in _ Hp). assumption.
    + left. apply Permutation_nil. assumption.
    + right. apply (Permutation_in _ Hq). assumption.
Qed.

(** The order in which the concurrent checks complete does not decide a
    verdict: two poll cycles that receive the same results in different
    orders publish, for every query mask, buckets that are permutations of
    each other, and every query passes after the one exactly when it passes
    after the other. *)
Theorem check_order_independent (i : Inspector)
    (results results' : list serviceCheckResult) (group : ProbeGroup)
    (needAllHealthy : bool) :
  Permutation results results' ->
  Permutation (selected (get (check i results)) group)
              (selected (get (check i results')) group) /\
  (CheckGroup (check i results) group needAllHealthy = None <->
   CheckGroup (check i results') group needAllHealthy = None).
Proof.
  intros Hp.
  assert (Hsel : Permutation (selected (get (check i results)) group)
                             (selected (get (check i results')) group)).
  { unfold get, check. cbn [data]. rewrite !selected_merge.
    cbn [emptyHealthResult startUp live ready app].
    destruct (Z.testbit group bitLive);
      [apply Permutation_map, filter_Permutation; assumption|].
    destruct (Z.testbit group bitReady);
      [apply Permutation_map, filter_Permutation; assumption|].
    destruct (Z.testbit group bitStartup);
      [apply Permutation_map, filter_Permutation; assumption|].
    constructor. }
  split; [assumption|].
  unfold CheckGroup. rewrite !health_verdict.
  apply verdict_Permutation. assumption.
Qed.

(** A failing and a healthy Live target, arriving in either order. *)
Lemma check_order_independent_witness :
  let svc := {| Scope := "test"; Dest := "x" |} in
  let t := {| Service := svc; Groups := GroupLive |} in
  let a := {| target := t; err := errors_New "fail" |} in
  let b := {| target := t; err := None |} in
  Permutation (selected (get (check (New [t; t]) [a; b])) GroupLive)
              (selected (get (check (New [t; t]) [b; a])) GroupLive) /\
  (CheckGroup (check (New [t; t]) [a; b]) GroupLive true = None <->
   CheckGroup (check (New [t; t]) [b; a]) GroupLive true = None).
Proof.
  intros svc t a b.
  apply (check_order_independent (New [t; t]) [a; b] [b; a] GroupLive true).
  apply perm_swap.
Defined.

(** ** Registry and snapshot *)

Lemma filter_map_target (G : ProbeGroup) (results : list serviceCheckResult) :
  filter (fun t => negb (Z.land (Groups t) G =? 0)) (map target results) =
  map target (filter (member G) results).
Proof.
  induction results as [|r results IH]; simpl; [reflexivity|].
  unfold member at 1. destruct (negb (Z.land (Groups (target r)) G =? 0));
    simpl; rewrite IH; reflexivity.
Qed.

(** A poll step leaves the registry and the period as they were, and the
    bucket of a single group (Startup, Live or Ready) holds one outcome for
    each target of the registry that belongs to the group: no more, no
    fewer, and no sentinel. *)
Theorem poll_bucket_sizes (i i' : Inspector) (G : ProbeGroup) :
  poll i i' ->
  In G [GroupStartup; GroupLive; GroupReady] ->
  targets i' = targets i /\
  checkPeriod i' = checkPeriod i /\
  List.length (selected (get i') G) =
    List.length
      (filter (fun t => negb (Z.land (Groups t) G =? 0)) (targets i)).
Proof.
  intros Hpoll HG. destruct Hpoll as [results Hperm].
  split; [reflexivity|]. split; [reflexivity|].
  rewrite (selected_check i results G HG), length_map.
  rewrite <- (Permutation_length
                (filter_Permutation
                   (fun t => negb (Z.land (Groups t) G =? 0)) _ _ Hperm)).
  rewrite filter_map_target, length_map. reflexivity.
Qed.

(** A registry of one Ready target, one target of all groups and one
    Common target: the ready bucket holds two outcomes after a poll. *)
Lemma poll_bucket_sizes_witness :
  let svc := {| Scope := "test"; Dest := "x" |} in
  let t1 := {| Service := svc; Groups := GroupReady |} in
  let t2 := {| Service := svc; Groups := AllGroups |} in
  let t3 := {| Service := svc; Groups := GroupCommon |} in
  let i := New [t1; t2; t3] in
  let i' := check i [ {| target := t2; err := None |};
                      {| target := t1; err := errors_New "fail" |};
                      {| target := t3; err := None |} ] in
  targets i' = targets i /\
  checkPeriod i' = checkPeriod i /\
  List.length (selected (get i') GroupReady) =
    List.length
      (filter (fun t => negb (Z.land (Groups t) GroupReady =? 0))
              (targets i)).
Proof.
  intros svc t1 t2 t3 i i'.
  apply (poll_bucket_sizes i i' GroupReady).
  - apply poll_cycle. apply perm_swap.
  - right. right. left. reflexivity.
Defined.

(** ** Reporting to the metric sink *)

Lemma checkMetric_none (results : list serviceCheckResult) :
  checkMetric None results = None.
Proof. induction results as [|r results IH]; [reflexivity | exact IH]. Qed.

(** With no sink attached a poll cycle reports nothing.  With a sink it
    makes one [Set] for each result, in arrival order and after the calls
    already made, under the scope and destination of the result's service,
    with value 1 for a nil outcome and 0 for an error. *)
Theorem checkMetric_calls (results : list serviceCheckResult) :
  checkMetric None results = None /\
  forall m,
    checkMetric (Some m) results =
    Some (m ++ map (fun r =>
                      {| labelScope := Scope (Service (target r));
                         labelDest := Dest (Service (target r));
                         gaugeValue := match err r with
                                       | None => 1
                                       | Some _ => 0
                                       end |}) results).
Proof.
  split; [apply checkMetric_none|].
  induction results as [|r results IH]; intros m.
  - simpl. rewrite app_nil_r. reflexivity.
  - unfold checkMetric. cbn [fold_left updateMetric map].
    fold (checkMetric (Some (m ++ [{| labelScope := Scope (Service (target r));
                         labelDest := Dest (Service (target r));
                         gaugeValue := match err r with
                                       | None => 1
                                       | Some _ => 0
                                       end |}])) results).
    rewrite IH, <- app_assoc. reflexivity.
Qed.

(** ** From a poll cycle to the response *)

(** What the default handler of a single group (Startup, Live or Ready)
    answers under the all-healthy policy after a poll cycle: status 503 with
    body [OK] when every result of the group's targets is nil, status 200
    with body [Unhealthy] when one of them is an error. *)
Theorem HealthHandler_after_check (i : Inspector)
    (results : list serviceCheckResult) (G : ProbeGroup)
    (w : ResponseWriter) :
  In G [GroupStartup; GroupLive; GroupReady] ->
  ((forall r, In r results -> member G r = true -> err r = None) ->
   HealthHandler G true None (check i results) w =
     w ++ [WriteHeader 503; Write "OK"%string]) /\
  ((exists r, In r results /\ member G r = true /\ err r <> None) ->
   HealthHandler G true None (check i results) w =
     w ++ [WriteHeader 200; Write "Unhealthy"%string]).
Proof.
  intros HG. unfold HealthHandler, CheckGroup.
  rewrite health_verdict, (selected_check i results G HG). split.
  - intros Hall.
    rewrite (proj2 (verdict_all_nil _)); [reflexivity|].
    intros e He. apply In_bucket in He as [r [Hr [Hm <-]]]. auto.
  - intros [r [Hr [Hm Hbad]]].
    destruct (verdict true (map err (filter (member G) results))) eqn:Hv;
      [reflexivity|].
    exfalso. apply Hbad. apply (proj1 (verdict_all_nil _) Hv).
    apply In_bucket. exists r. auto.
Qed.

(** The handler of the Ready group after a poll cycle in which the one
    Ready target failed. *)
Lemma HealthHandler_after_check_witness :
  let t := {| Service := {| Scope := "database"; Dest := "host-1" |};
              Groups := GroupReady |} in
  let bad := {| target := t; err := errors_New "some err" |} in
  HealthHandler GroupReady true None (check (New [t]) [bad]) [] =
    [WriteHeader 200; Write "Unhealthy"%string].
Proof.
  intros t bad.
  apply (proj2 (HealthHandler_after_check (New [t]) [bad] GroupReady []
                  (or_intror (or_intror (or_introl eq_refl))))).
  exists bad. split; [left; reflexivity|].
  split; [reflexivity | discriminate].
Defined.
